(** * A to-do list service over a relational table

    Shallow embedding of [main.py]: the connection string, the [TodoItem]
    table model, the three request handlers ([get_all_todos], [add_todo],
    [delete_todo]) and the part of the session and of the web framework they
    run on.

    The handlers are written in a small state-and-exception monad over a
    [Session], so that each reads like its Python source.  What the source
    only calls (the SQL table and the range of its keys, the unit of work
    of the session, the making of the object of a request and the rendering
    of exceptions) is modelled next to them, as far as the handlers use
    it. *)

From Stdlib Require Import ZArith String.
From stdpp Require Import base option list strings gmap.

Open Scope string_scope.
Open Scope Z_scope.
Open Scope list_scope.

(** ** 1. Database configuration *)

Module Config.

(** [s.startswith(p)] *)
Definition startswith (s p : string) : bool := String.prefix p s.

Fixpoint str_drop (n : nat) (s : string) : string :=
  match n, s with
  | O, _ => s
  | S _, EmptyString => EmptyString
  | S n', String _ s' => str_drop n' s'
  end.

(** [s.replace(old, new, 1)]: the leftmost occurrence of [old] in [s] is
    replaced by [new]; [s] is returned as it is when [old] does not occur. *)
Fixpoint replace_first (s old new : string) : string :=
  if String.prefix old s then new +:+ str_drop (String.length old) s
  else match s with
       | EmptyString => EmptyString
       | String c s' => String c (replace_first s' old new)
       end.

Definition default_url : string := "sqlite:///./local_database.db".

(** The module-level computation of [DATABASE_URL]; [environ] is
    [os.environ], a mapping from variable names to strings. *)
Definition DATABASE_URL (environ : gmap string string) : string :=
  let url := default default_url (environ !! "DATABASE_URL") in
  if startswith url "postgres://"
  then replace_first url "postgres://" "postgresql://"
  else url.

End Config.

(** ** 2. The data model *)

(** A Task with its three fields, as [response_model=TodoItem] writes it in
    a response.  Its [id] is an optional integer. *)
Record TodoItem := mkTodoItem {
  id : option Z;
  title : string;
  is_done : bool
}.

(** A row of table [todoitem]: no column is nullable. *)
Record Row := mkRow {
  row_id : Z;
  row_title : string;
  row_is_done : bool
}.

Global Instance TodoItem_eq_dec : EqDecision TodoItem.
Proof. solve_decision. Defined.
Global Instance Row_eq_dec : EqDecision Row.
Proof. solve_decision. Defined.

Definition item_of_row (r : Row) : TodoItem :=
  {| id := Some (row_id r); title := row_title r; is_done := row_is_done r |}.

(** An instance of [class TodoItem(SQLModel, table=True)] in memory.  The
    class is a table model: an instance is made from the body of a request
    without validation, so that [title], declared [str], is unset when the
    body has none; [id] is [None] until the row is inserted. *)
Record TodoObject := mkTodoObject {
  obj_id : option Z;
  obj_title : option string;
  obj_is_done : bool
}.

Definition object_of_row (r : Row) : TodoObject :=
  {| obj_id := Some (row_id r); obj_title := Some (row_title r);
     obj_is_done := row_is_done r |}.

(** The Task that is written for an object in a response; there is none for
    an object without [title]. *)
Definition to_item (o : TodoObject) : option TodoItem :=
  t ← obj_title o;
  Some {| id := obj_id o; title := t; is_done := obj_is_done o |}.

(** The body of a creation request: [None] stands for a key that the JSON
    object does not have (for [id], also for [null]).  Values of another
    type than the field's are not payloads of this model. *)
Record Payload := mkPayload {
  p_id : option Z;
  p_title : option string;
  p_is_done : option bool
}.

(** The object that the framework hands to [add_todo]: the fields of the
    body as they are, and the declared defaults ([id = None],
    [is_done = False]) for those it has not.  Nothing is checked: a body
    without [title] gives an object without [title]. *)
Definition construct (p : Payload) : TodoObject :=
  {| obj_id := p_id p; obj_title := p_title p;
     obj_is_done := default false (p_is_done p) |}.

(** ** 3. The store *)

(** The table and the state of the generator of primary keys.  The order of
    [rows] has no meaning: the source reads the table without [ORDER BY]. *)
Record Database (G : Type) := mkDatabase {
  rows : list Row;
  gen_state : G
}.
Arguments mkDatabase {G} _ _.
Arguments rows {G} _.
Arguments gen_state {G} _.

Definition ids {G} (d : Database G) : list Z := row_id <$> rows d.

Definition empty_table {G} (g : G) : Database G :=
  {| rows := []; gen_state := g |}.

(** A store comes with the range of its keys: [todo_id] and the [id] of a
    body are Python integers, without bound, and the driver of the store
    refuses to pass one outside the range.  From keys in range the store
    generates a key in range. *)
Class KeyRange {G : Type} (next_id : G → list Z → Z * G) := {
  in_range : Z → bool;
  next_id_in_range g used :
    Forall (λ j, in_range j = true) used → in_range (next_id g used).1 = true
}.

Inductive Exception :=
| HTTPException (status_code : Z) (detail : string)
| IntegrityError
| OverflowError
| InvalidRequestError.

(** Python holds an object by reference: here, by its position in the
    heap of the session. *)
Abbreviation ref := nat (only parsing).

(** A session: the committed database, the objects the request holds, and
    the pending work of the session ([session.new], [session.deleted]). *)
Record Session (G : Type) := mkSession {
  db : Database G;
  heap : list TodoObject;
  new : list ref;
  deleted : list ref
}.
Arguments mkSession {G} _ _ _ _.
Arguments db {G} _.
Arguments heap {G} _.
Arguments new {G} _.
Arguments deleted {G} _.

(** State that survives an exception: what was committed stays committed. *)
Definition M (G A : Type) : Type := Session G → Session G * (Exception + A).

Definition ret {G A} (a : A) : M G A := λ s, (s, inr a).
Definition raise {G A} (e : Exception) : M G A := λ s, (s, inl e).
Definition bind {G A B} (m : M G A) (k : A → M G B) : M G B :=
  λ s, match m s with
       | (s', inr a) => k a s'
       | (s', inl e) => (s', inl e)
       end.

Global Instance M_ret {G} : MRet (M G) := λ A, @ret G A.
Global Instance M_bind {G} : MBind (M G) := λ A B k m, @bind G A B m k.

Section Store.

Context {G : Type}.

(** The generator of primary keys of the store: from its state and the
    keys in use, the next key and the next state. *)
Variable next_id : G → list Z → Z * G.

Context `{!KeyRange next_id}.

(** [INSERT INTO todoitem]: with the key the object carries, or with a
    generated one when it carries none (the generator has then advanced,
    whatever becomes of the statement).  The statement fails, and no row is
    written, when the key is outside the range of the store, when the
    object has no [title] (the column is [NOT NULL]), and when the key is in
    use (the primary key). *)
Definition sql_insert (o : TodoObject) (d : Database G)
  : Database G * (Exception + Z) :=
  let '(i, g) :=
    match obj_id o with
    | Some i => (i, gen_state d)
    | None => next_id (gen_state d) (ids d)
    end in
  if negb (in_range i)
  then ({| rows := rows d; gen_state := g |}, inl OverflowError)
  else match obj_title o with
       | None => ({| rows := rows d; gen_state := g |}, inl IntegrityError)
       | Some t =>
           if decide (i ∈ ids d)
           then ({| rows := rows d; gen_state := g |}, inl IntegrityError)
           else ({| rows := rows d ++ [mkRow i t (obj_is_done o)];
                    gen_state := g |}, inr i)
       end.

(** [SELECT ... WHERE id = i] *)
Definition sql_select_by_id (i : Z) (d : Database G) : option Row :=
  List.find (λ r, bool_decide (row_id r = i)) (rows d).

(** [DELETE FROM todoitem WHERE id = i] *)
Definition sql_delete (i : Z) (d : Database G) : Database G :=
  {| rows := filter (λ r, row_id r ≠ i) (rows d);
     gen_state := gen_state d |}.

(** *** The unit of work *)

Definition set_id (i : Z) (o : TodoObject) : TodoObject :=
  {| obj_id := Some i; obj_title := obj_title o;
     obj_is_done := obj_is_done o |}.

(** Flushing the pending inserts: each object receives its key. *)
Fixpoint flush_new (rs : list ref) (d : Database G) (h : list TodoObject)
  : Database G * (Exception + list TodoObject) :=
  match rs with
  | [] => (d, inr h)
  | r :: rs' =>
      match h !! r with
      | None => (d, inl InvalidRequestError)
      | Some o =>
          match sql_insert o d with
          | (d', inr i) => flush_new rs' d' (<[r := set_id i o]> h)
          | (d', inl e) => (d', inl e)
          end
      end
  end.

Fixpoint flush_deleted (rs : list ref) (d : Database G) (h : list TodoObject)
  : Database G :=
  match rs with
  | [] => d
  | r :: rs' =>
      match o ← h !! r; obj_id o with
      | Some i => flush_deleted rs' (sql_delete i d) h
      | None => flush_deleted rs' d h
      end
  end.

Definition session_add (item : ref) : M G unit :=
  λ s, ({| db := db s; heap := heap s; new := new s ++ [item];
           deleted := deleted s |}, inr tt).

Definition session_delete (item : ref) : M G unit :=
  λ s, ({| db := db s; heap := heap s; new := new s;
           deleted := deleted s ++ [item] |}, inr tt).

(** [session.commit()]: the pending inserts, then the pending deletes, in
    one transaction.  A failed insert rolls the rows back. *)
Definition session_commit : M G unit :=
  λ s, match flush_new (new s) (db s) (heap s) with
       | (d, inr h) =>
           ({| db := flush_deleted (deleted s) d h; heap := h;
               new := []; deleted := [] |}, inr tt)
       | (d, inl e) =>
           ({| db := {| rows := rows (db s); gen_state := gen_state d |};
               heap := heap s; new := []; deleted := [] |}, inl e)
       end.

(** [session.refresh(item)]: the attributes of the object are read again
    from its row. *)
Definition session_refresh (item : ref) : M G unit :=
  λ s, match o ← heap s !! item; i ← obj_id o; sql_select_by_id i (db s) with
       | Some r =>
           ({| db := db s; heap := <[item := object_of_row r]> (heap s);
               new := new s; deleted := deleted s |}, inr tt)
       | None => (s, inl InvalidRequestError)
       end.

(** Loading rows makes new objects. *)
Definition load (rs : list Row) : M G (list ref) :=
  λ s, ({| db := db s; heap := heap s ++ (object_of_row <$> rs);
           new := new s; deleted := deleted s |},
        inr (seq (length (heap s)) (length rs))).

(** [session.get(TodoItem, todo_id)]: the object of the row of this key, or
    [None] when there is no such row; a key outside the range of the store
    is refused by the driver.  (The keys of a table that the store has
    written are in range, so that it cannot be seen which of the two tests
    comes first.) *)
Definition session_get (todo_id : Z) : M G (option ref) :=
  λ s, match sql_select_by_id todo_id (db s) with
       | Some r => (l ← load [r]; mret (head l)) s
       | None =>
           if in_range todo_id then (s, inr None)
           else (s, inl OverflowError)
       end.

(** [session.exec(select(TodoItem)).all()] *)
Definition session_exec_select_all : M G (list ref) :=
  λ s, load (rows (db s)) s.

(** ** 4. The handlers *)

Definition get_all_todos : M G (list ref) :=
  results ← session_exec_select_all;
  mret results.

Definition add_todo (item : ref) : M G ref :=
  session_add item;;
  session_commit;;
  session_refresh item;;
  mret item.

Definition delete_todo (todo_id : Z) : M G (list (string * string)) :=
  item ← session_get todo_id;
  match item with
  | None => raise (HTTPException 404 "Item not found")
  | Some item =>
      session_delete item;;
      session_commit;;
      mret [("message", "Deleted successfully")]
  end.

(** ** 5. Requests and responses *)

Inductive Content :=
| Todo (t : TodoItem)
| Todos (l : list TodoItem)
| Dict (kv : list (string * string))
| InternalServerError.

Record Response := mkResponse {
  status : Z;
  content : Content
}.

(** How the framework answers an exception that leaves a handler: the
    source handles none, so that any other than [HTTPException] is a 500. *)
Definition exception_response (e : Exception) : Response :=
  match e with
  | HTTPException c d => {| status := c; content := Dict [("detail", d)] |}
  | _ => {| status := 500; content := InternalServerError |}
  end.

(** [get_session]: a session on the engine for the time of one request.
    Closing it drops what was not committed. *)
Definition with_session {A} (objs : list TodoObject) (handler : M G A)
    (render : list TodoObject → A → option Content) (d : Database G)
  : Response * Database G :=
  match handler {| db := d; heap := objs; new := []; deleted := [] |} with
  | (s, inr a) =>
      match render (heap s) a with
      | Some c => ({| status := 200; content := c |}, db s)
      | None => ({| status := 500; content := InternalServerError |}, db s)
      end
  | (s, inl e) => (exception_response e, db s)
  end.

(** [GET /todos], with [response_model=List[TodoItem]] *)
Definition GET_todos (d : Database G) : Response * Database G :=
  with_session [] get_all_todos
    (λ h rs, Todos <$> mapM (λ r, o ← h !! r; to_item o) rs) d.

(** [POST /todos], with [response_model=TodoItem]: the handler is called
    with the object made from the body. *)
Definition POST_todos (p : Payload) (d : Database G)
  : Response * Database G :=
  with_session [construct p] (add_todo 0%nat)
    (λ h r, Todo <$> (o ← h !! r; to_item o)) d.

(** [DELETE /todos/{todo_id}] *)
Definition DELETE_todos (todo_id : Z) (d : Database G)
  : Response * Database G :=
  with_session [] (delete_todo todo_id) (λ _ kv, Some (Dict kv)) d.

(** *** Sequences of requests *)

Inductive Request :=
| List_todos
| Create (p : Payload)
| Delete (todo_id : Z).

Definition serve (rq : Request) (d : Database G) : Response * Database G :=
  match rq with
  | List_todos => GET_todos d
  | Create p => POST_todos p d
  | Delete i => DELETE_todos i d
  end.

Fixpoint run (rqs : list Request) (d : Database G)
  : list Response * Database G :=
  match rqs with
  | [] => ([], d)
  | rq :: rqs' =>
      let '(r, d') := serve rq d in
      let '(rs, d'') := run rqs' d' in
      (r :: rs, d'')
  end.

(** The states the service can be in: [on_startup] creates the table, empty,
    when the store does not have it; afterwards it changes only through
    requests. *)
Inductive reachable : Database G → Prop :=
| reachable_startup g : reachable (empty_table g)
| reachable_serve rq d : reachable d → reachable (serve rq d).2.

End Store.

(** *** The default store

    A SQLite table whose key is the row id, a signed integer of 64 bits. *)

Definition min_rowid : Z := - 2 ^ 63.
Definition max_rowid : Z := 2 ^ 63 - 1.

Definition int64 (i : Z) : bool := (min_rowid <=? i) && (i <=? max_rowid).

(** Once the largest row id is in use, SQLite draws keys at random between
    1 and [2 ^ 62] until it finds a free one, and gives up after some draws.
    [random_rowid used] stands for the number drawn last: the insert fails
    when the key it gives is in use. *)
Class Randomness := random_rowid : list Z → Z.

(** The generator of the default store: 1 in an empty table, else one more
    than the largest key in use, as long as this is not the largest row
    id. *)
Definition sqlite_rowid `{Randomness} (_ : unit) (used : list Z) : Z * unit :=
  (match used with
   | [] => 1
   | i :: l =>
       let m := foldr Z.max i l in
       if m <? max_rowid then m + 1
       else 1 + random_rowid used `mod` 2 ^ 62
   end, tt).

Global Instance sqlite_keys `{Randomness} : KeyRange sqlite_rowid.
Proof.
  refine {| in_range := int64 |}. intros g used Hused.
  assert (Hmax : ∀ (i : Z) l, foldr Z.max i l ∈ i :: l).
  { intros i l. induction l as [|y l IH]; simpl; [left|].
    destruct (Z.max_spec y (foldr Z.max i l)) as [[_ ->]|[_ ->]].
    - apply elem_of_cons in IH as [->|IH]; [left | by do 2 right].
    - right; left. }
  destruct used as [|i l]; [done|]. cbn [sqlite_rowid fst].
  unfold int64, min_rowid, max_rowid in *.
  pose proof (proj1 (Forall_forall _ _) Hused _ (Hmax i l)) as Hm.
  simpl in Hm. apply andb_true_iff in Hm as [Hlo _]. apply Z.leb_le in Hlo.
  destruct (Z.ltb_spec (foldr Z.max i l) (2 ^ 63 - 1)) as [Hlt|_].
  - apply andb_true_iff. split; apply Z.leb_le; lia.
  - pose proof (Z.mod_pos_bound (random_rowid (i :: l)) (2 ^ 62)
                  ltac:(lia)) as Hmod.
    apply andb_true_iff. split; apply Z.leb_le; lia.
Defined.

(** A sequence, as a PostgreSQL [SERIAL] column draws its keys from: the
    keys in use play no part.  The range of the keys of such a store is not
    modelled: every integer is taken to be in range. *)
Definition serial_sequence (last : Z) (_ : list Z) : Z * Z :=
  (last + 1, last + 1).

Global Instance serial_keys : KeyRange serial_sequence :=
  {| in_range := λ _, true; next_id_in_range := λ _ _ _, eq_refl |}.

(** Draws for the examples: none of them reaches the largest row id. *)
Definition sample_draws : Randomness := λ _, 0.

(** The [id] of the Task a response carries, if it carries one: only a
    creation that succeeded answers with a Task. *)
Definition response_id (r : Response) : option Z :=
  match content r with
  | Todo o => id o
  | _ => None
  end.

Definition is_delete (rq : Request) : bool :=
  match rq with
  | Delete _ => true
  | _ => false
  end.

Definition deleted_successfully : Response :=
  {| status := 200; content := Dict [("message", "Deleted successfully")] |}.

Definition item_not_found : Response :=
  {| status := 404; content := Dict [("detail", "Item not found")] |}.

Definition internal_server_error : Response :=
  {| status := 500; content := InternalServerError |}.

(** Sample payloads: [{"title": "buy milk"}] and two with a client's [id]. *)
Definition buy_milk : Payload :=
  {| p_id := None; p_title := Some "buy milk"; p_is_done := None |}.

Definition walk_dog_7 : Payload :=
  {| p_id := Some 7; p_title := Some "walk dog"; p_is_done := None |}.

Definition walk_dog : Payload :=
  {| p_id := None; p_title := Some "walk dog"; p_is_done := None |}.

Definition no_title : Payload :=
  {| p_id := None; p_title := None; p_is_done := Some true |}.

(** The default store after [{"title": "buy milk"}] was created in the
    empty table. *)
Definition one_task : Database unit :=
  {| rows := [mkRow 1 "buy milk" false]; gen_state := tt |}.

Definition two_tasks : Database unit :=
  {| rows := [mkRow 1 "buy milk" false; mkRow 2 "walk dog" true];
     gen_state := tt |}.

Global Instance Content_eq_dec : EqDecision Content.
Proof. solve_decision. Defined.
Global Instance Response_eq_dec : EqDecision Response.
Proof. solve_decision. Defined.

(** * Properties *)

(** ** The connection string *)

Module ConfigFacts.
Import Config.

Lemma prefix_app (p r : string) : String.prefix p (p +:+ r) = true.
Proof.
  induction p as [|c p IH]; simpl; [by destruct r|].
  destruct (Ascii.ascii_dec c c); [exact IH | done].
Qed.

Lemma str_drop_app (p r : string) : str_drop (String.length p) (p +:+ r) = r.
Proof. induction p as [|c p IH]; simpl; [done | exact IH]. Qed.

Lemma replace_first_unfold (s old new : string) :
  replace_first s old new =
    if String.prefix old s then new +:+ str_drop (String.length old) s
    else match s with
         | EmptyString => EmptyString
         | String c s' => String c (replace_first s' old new)
         end.
Proof. by destruct s. Qed.

(** Replacing the first occurrence rewrites a leading occurrence. *)
Lemma replace_first_prefix (old new rest : string) :
  replace_first (old +:+ rest) old new = new +:+ rest.
Proof.
  by rewrite replace_first_unfold, prefix_app, str_drop_app.
Qed.

(** C9. The connection string depends on the environment only through
    the variable [DATABASE_URL]: when the variable is unset it is the local
    SQLite file; a configured string that begins with [postgres://] has
    exactly this leading prefix rewritten to [postgresql://], whatever
    follows it being kept; any other configured string is used as it is. *)
Theorem DATABASE_URL_normalised :
  (∀ env env' : gmap string string,
     env !! "DATABASE_URL" = env' !! "DATABASE_URL" →
     DATABASE_URL env = DATABASE_URL env') ∧
  (∀ env : gmap string string,
     env !! "DATABASE_URL" = None →
     DATABASE_URL env = "sqlite:///./local_database.db") ∧
  (∀ (env : gmap string string) rest,
     env !! "DATABASE_URL" = Some ("postgres://" +:+ rest) →
     DATABASE_URL env = "postgresql://" +:+ rest) ∧
  (∀ (env : gmap string string) s,
     env !! "DATABASE_URL" = Some s →
     startswith s "postgres://" = false →
     DATABASE_URL env = s).
Proof.
  unfold DATABASE_URL. repeat split.
  - by intros env env' ->.
  - by intros env ->.
  - intros env rest ->. unfold default, Datatypes.id, startswith.
    cbn [from_option]. rewrite prefix_app.
    apply replace_first_prefix.
  - intros env s -> Hs. unfold default, Datatypes.id.
    cbn [from_option]. by rewrite Hs.
Qed.

Lemma DATABASE_URL_normalised_witness :
  DATABASE_URL ∅ = "sqlite:///./local_database.db" ∧
  DATABASE_URL {[ "DATABASE_URL" := "postgres://app@db.example/todos" ]}
    = "postgresql://app@db.example/todos" ∧
  DATABASE_URL {[ "DATABASE_URL" := "mysql://h/x?next=postgres://" ]}
    = "mysql://h/x?next=postgres://".
Proof.
  destruct DATABASE_URL_normalised as (_ & Hunset & Hpg & Hother).
  split; [|split].
  - apply Hunset. reflexivity.
  - apply (Hpg _ "app@db.example/todos"). reflexivity.
  - apply Hother; reflexivity.
Defined.

End ConfigFacts.

(** ** The handlers in closed form *)

Section Endpoints.

Context {G : Type} (next_id : G → list Z → Z * G) `{!KeyRange next_id}.

Implicit Types (d : Database G) (i : Z) (p : Payload) (o : TodoItem).

Lemma select_by_id_Some i d r :
  sql_select_by_id i d = Some r → row_id r = i ∧ r ∈ rows d.
Proof.
  unfold sql_select_by_id. intros H.
  apply find_some in H as [Hin Hb].
  apply bool_decide_eq_true in Hb.
  split; [done | by apply list_elem_of_In].
Qed.

Lemma select_by_id_None i d :
  sql_select_by_id i d = None ↔ i ∉ ids d.
Proof.
  unfold sql_select_by_id, ids. split.
  - intros H Hin. apply list_elem_of_fmap in Hin as (r & -> & Hr).
    apply list_elem_of_In in Hr.
    pose proof (find_none _ _ H _ Hr) as Hb. simpl in Hb.
    by apply bool_decide_eq_false in Hb.
  - intros Hnot. destruct (List.find _ _) as [r|] eqn:E; [|done].
    apply find_some in E as [Hin Hb].
    apply bool_decide_eq_true in Hb. exfalso. apply Hnot.
    apply list_elem_of_fmap. exists r. split; [done|].
    by apply list_elem_of_In.
Qed.

Lemma select_by_id_inserted i t b d :
  i ∉ ids d →
  sql_select_by_id i {| rows := rows d ++ [mkRow i t b];
                        gen_state := gen_state d |} = Some (mkRow i t b).
Proof.
  intros Hnot. apply select_by_id_None in Hnot.
  unfold sql_select_by_id in *. simpl.
  induction (rows d) as [|r l IH]; simpl in *.
  - by rewrite bool_decide_eq_true_2.
  - destruct (bool_decide (row_id r = i)); [done | by apply IH].
Qed.

(** The objects loaded from rows are written as the Tasks of these rows. *)
Lemma mapM_lookup_seq (pre : list TodoObject) (l : list Row) :
  mapM (λ r, x ← (pre ++ (object_of_row <$> l)) !! r; to_item x)
    (seq (length pre) (length l)) = Some (item_of_row <$> l).
Proof.
  apply mapM_Some. revert pre.
  induction l as [|x l IH]; intros pre; simpl; [constructor|].
  constructor.
  - by rewrite list_lookup_middle.
  - specialize (IH (pre ++ [object_of_row x])).
    rewrite length_app, Nat.add_1_r in IH.
    by rewrite <- (assoc_L (++)) in IH.
Qed.

Lemma GET_todos_eq d :
  GET_todos d =
    ({| status := 200; content := Todos (item_of_row <$> rows d) |}, d).
Proof.
  unfold GET_todos, with_session, get_all_todos. simpl.
  unfold mbind at 1, M_bind, bind, session_exec_select_all, load. simpl.
  pose proof (mapM_lookup_seq [] (rows d)) as H.
  match goal with
  | |- context [mapM ?f ?l] =>
      replace (mapM f l) with (Some (item_of_row <$> rows d))
        by (symmetry; exact H)
  end.
  by destruct d.
Qed.

(** The key that an insert of the body uses, with the state in which it
    leaves the generator. *)
Lemma sql_insert_eq p d :
  sql_insert next_id (construct p) d =
    let key := match p_id p with
               | Some i => (i, gen_state d)
               | None => next_id (gen_state d) (ids d)
               end in
    match p_title p with
    | Some t =>
        if in_range key.1 && bool_decide (key.1 ∉ ids d)
        then ({| rows := rows d
                   ++ [mkRow key.1 t (default false (p_is_done p))];
                 gen_state := key.2 |}, inr key.1)
        else ({| rows := rows d; gen_state := key.2 |},
              inl (if in_range key.1 then IntegrityError
                   else OverflowError))
    | None =>
        ({| rows := rows d; gen_state := key.2 |},
         inl (if in_range key.1 then IntegrityError else OverflowError))
    end.
Proof.
  unfold sql_insert, construct. cbn [obj_id obj_title obj_is_done].
  destruct (match p_id p with Some _ => _ | None => _ end) as [i g].
  cbn [fst snd]. destruct (in_range i), (p_title p) as [t|]; cbn; try done.
  by destruct (decide (i ∈ ids d));
    [rewrite bool_decide_eq_false_2 by (by intros ?)
    |rewrite bool_decide_eq_true_2 by done].
Qed.

Lemma POST_todos_eq p d :
  POST_todos next_id p d =
    match sql_insert next_id (construct p) d, p_title p with
    | (d', inr i), Some t =>
        ({| status := 200;
            content := Todo {| id := Some i; title := t;
                               is_done := default false (p_is_done p) |} |},
         d')
    | (d', _), _ =>
        ({| status := 500; content := InternalServerError |},
         {| rows := rows d; gen_state := gen_state d' |})
    end.
Proof.
  unfold POST_todos, with_session, add_todo, mbind, M_bind, bind,
    session_add, session_commit, session_refresh. simpl.
  rewrite sql_insert_eq. cbv zeta.
  destruct (match p_id p with Some _ => _ | None => _ end) as [i g].
  cbn [fst snd]. destruct (p_title p) as [t|]; simpl.
  - destruct (in_range i) eqn:Hr; simpl; [|done].
    destruct (decide (i ∉ ids d)) as [Hnot|Hin].
    + rewrite bool_decide_eq_true_2 by done. simpl.
      pose proof (select_by_id_inserted i t (default false (p_is_done p))
                    {| rows := rows d; gen_state := g |} Hnot) as Hsel.
      simpl in Hsel. rewrite Hsel. done.
    + by rewrite bool_decide_eq_false_2 by done.
  - by destruct (in_range i).
Qed.

Lemma DELETE_todos_eq i d :
  DELETE_todos next_id i d =
    if decide (i ∈ ids d)
    then ({| status := 200;
             content := Dict [("message", "Deleted successfully")] |},
          sql_delete i d)
    else if in_range i
    then ({| status := 404;
             content := Dict [("detail", "Item not found")] |}, d)
    else ({| status := 500; content := InternalServerError |}, d).
Proof.
  unfold DELETE_todos, with_session, delete_todo, mbind, M_bind, bind,
    session_get. simpl.
  destruct (sql_select_by_id i d) as [r|] eqn:E.
  - apply select_by_id_Some in E as [Hid Hin].
    rewrite decide_True
      by (apply list_elem_of_fmap; exists r; by split).
    simpl. by rewrite Hid.
  - apply select_by_id_None in E. rewrite decide_False by done.
    destruct (in_range i); simpl; by destruct d.
Qed.

(** What a creation that succeeds returns and writes. *)
Lemma POST_todos_created p d r d' :
  POST_todos next_id p d = (r, d') → status r = 200 →
  ∃ i t,
    p_title p = Some t ∧
    i = default (next_id (gen_state d) (ids d)).1 (p_id p) ∧
    (i ∉ ids d) ∧
    r = {| status := 200;
           content := Todo {| id := Some i; title := t;
                              is_done := default false (p_is_done p) |} |} ∧
    rows d' = rows d ++ [mkRow i t (default false (p_is_done p))].
Proof.
  rewrite POST_todos_eq, sql_insert_eq. cbv zeta.
  assert (Hkey : (match p_id p with
                  | Some i => (i, gen_state d)
                  | None => next_id (gen_state d) (ids d)
                  end).1 = default (next_id (gen_state d) (ids d)).1 (p_id p))
    by (by destruct (p_id p)).
  destruct (match p_id p with Some _ => _ | None => _ end) as [i g].
  cbn [fst snd] in *. subst i.
  destruct (p_title p) as [t|]; simpl.
  2: { intros [= <- <-]. simpl. done. }
  destruct (in_range _) eqn:Hr; simpl.
  2: { intros [= <- <-]. simpl. done. }
  destruct (decide (default (next_id (gen_state d) (ids d)).1 (p_id p)
                      ∉ ids d)) as [Hnot|Hin].
  - rewrite bool_decide_eq_true_2 by done. intros [= <- <-] _. simpl.
    by eexists _, t.
  - rewrite bool_decide_eq_false_2 by done. intros [= <- <-]. simpl. done.
Qed.



(** A creation without title writes no row. *)
Lemma POST_todos_no_title p d :
  p_title p = None →
  (POST_todos next_id p d).1 = internal_server_error ∧
  rows (POST_todos next_id p d).2 = rows d.
Proof.
  intros Ht. rewrite POST_todos_eq, sql_insert_eq. cbv zeta. rewrite Ht.
  by destruct (match p_id p with Some _ => _ | None => _ end).
Qed.

(** A creation that does not succeed is answered with 500 and writes no
    row. *)
Lemma POST_todos_failed p d :
  status (POST_todos next_id p d).1 ≠ 200 →
  (POST_todos next_id p d).1 = internal_server_error ∧
  rows (POST_todos next_id p d).2 = rows d.
Proof.
  rewrite POST_todos_eq.
  destruct (sql_insert next_id (construct p) d) as [d1 [e|j]];
    destruct (p_title p); simpl; done.
Qed.

Lemma ids_sql_delete i d :
  ids (sql_delete i d) = filter (λ j, j ≠ i) (ids d).
Proof.
  unfold ids, sql_delete. simpl.
  induction (rows d) as [|r l IH]; [done|].
  rewrite fmap_cons, !filter_cons.
  destruct (decide (row_id r ≠ i)); [by rewrite fmap_cons, IH | exact IH].
Qed.

End Endpoints.

(** ** One request *)

Section Requests.

Context {G : Type} (next_id : G → list Z → Z * G) `{!KeyRange next_id}.

Implicit Types (d : Database G) (i : Z) (p : Payload) (o : TodoItem).

(** What one request does to the table: nothing, one row more under a key
    that was free (and then the response carries this key), or the rows of
    one key fewer.  A response carries a key only in the second case. *)
Lemma serve_cases rq d :
  let r := (serve next_id rq d).1 in
  let d' := (serve next_id rq d).2 in
  (rows d' = rows d ∧ response_id r = None) ∨
  (∃ p i t b, rq = Create p ∧ (i ∉ ids d) ∧ response_id r = Some i ∧
              rows d' = rows d ++ [mkRow i t b]) ∨
  (∃ i, rq = Delete i ∧ response_id r = None ∧
        rows d' = filter (λ x, row_id x ≠ i) (rows d)).
Proof.
  destruct rq as [|p|i]; simpl.
  - left. by rewrite GET_todos_eq.
  - destruct (POST_todos next_id p d) as [r d'] eqn:E. simpl.
    destruct (decide (status r = 200)) as [Hok|Hno].
    + destruct (POST_todos_created _ _ _ _ _ E Hok)
        as (i & t & _ & _ & Hfresh & -> & Hrows).
      right; left. by exists p, i, t, (default false (p_is_done p)).
    + left. pose proof (POST_todos_failed next_id p d) as Hf. rewrite E in Hf.
      simpl in Hf. destruct (Hf Hno) as [Hr Hrows]. by rewrite Hr.
  - rewrite DELETE_todos_eq. case_decide.
    + right; right. by exists i.
    + left. by destruct (in_range i).
Qed.

Lemma item_of_row_filter i (l : list Row) :
  item_of_row <$> filter (λ x, row_id x ≠ i) l =
  filter (λ o, id o ≠ Some i) (item_of_row <$> l).
Proof.
  induction l as [|x l IH]; [done|].
  rewrite fmap_cons, !filter_cons. simpl.
  destruct (decide (row_id x ≠ i)) as [Hne|He].
  - rewrite decide_True by congruence. by rewrite fmap_cons, IH.
  - rewrite decide_False; [exact IH|]. intros Hc. apply He.
    intros Heq. apply Hc. by rewrite Heq.
Qed.

(** C2 (the code at the input where it leaves the claim).  For every store
    state and every integer [todo_id] that no row of the table has, the
    store is unchanged and a listing after the call is the listing before
    it.  When [todo_id] is in the range of the keys of the store, the
    deletion is answered with 404 and the body
    [{"detail": "Item not found"}], as the claim says; when it is outside,
    [session.get] raises and the answer is 500. *)
Theorem delete_todo_unknown_id d i :
  i ∉ ids d →
  (DELETE_todos next_id i d).2 = d ∧
  GET_todos (DELETE_todos next_id i d).2 = GET_todos d ∧
  (in_range i = true → (DELETE_todos next_id i d).1 = item_not_found) ∧
  (in_range i = false →
   (DELETE_todos next_id i d).1 = internal_server_error).
Proof.
  intros Hnot. rewrite DELETE_todos_eq, decide_False by done.
  by destruct (in_range i).
Qed.

(** C5 (the code at the input where it leaves the claim).  A creation
    request whose payload has no [title] is not rejected before the
    handler: [add_todo] runs, [session.commit] raises on the row without
    title, and the answer is 500, not 422.  No row is written. *)
Theorem add_todo_missing_title d p :
  p_title p = None →
  (POST_todos next_id p d).1 = internal_server_error ∧
  rows (POST_todos next_id p d).2 = rows d ∧
  (GET_todos (POST_todos next_id p d).2).1 = (GET_todos d).1.
Proof.
  intros Ht. destruct (POST_todos_no_title _ p d Ht) as [Hr Hrows].
  by rewrite !GET_todos_eq, Hrows.
Qed.

(** C4. When the payload of a creation request has no [is_done], the Task
    that is created (the row written) and returned (the response) has
    [is_done] equal to false. *)
Theorem add_todo_is_done_defaults d p r d' :
  p_is_done p = None →
  POST_todos next_id p d = (r, d') → status r = 200 →
  ∃ i t,
    r = {| status := 200;
           content := Todo {| id := Some i; title := t;
                              is_done := false |} |} ∧
    rows d' = rows d ++ [mkRow i t false].
Proof.
  intros Hd E Hok.
  destruct (POST_todos_created _ _ _ _ _ E Hok)
    as (i & t & _ & _ & _ & -> & Hrows).
  rewrite Hd in *. by exists i, t.
Qed.

(** C10. For every store state and every [todo_id] that a row of the table
    has, the deletion succeeds and removes the rows of that key only: the
    rows left are the other rows, each with its [id], [title] and
    [is_done], and a listing after the call is the listing before it
    without the Task of that [id], up to the order. *)
Theorem delete_todo_frame d i :
  i ∈ ids d →
  ∃ d' l l',
    DELETE_todos next_id i d = (deleted_successfully, d') ∧
    (∀ x, x ∈ rows d' ↔ x ∈ rows d ∧ row_id x ≠ i) ∧
    GET_todos d = ({| status := 200; content := Todos l |}, d) ∧
    GET_todos d' = ({| status := 200; content := Todos l' |}, d') ∧
    l' ≡ₚ filter (λ o, id o ≠ Some i) l.
Proof.
  intros Hin. rewrite DELETE_todos_eq, decide_True by done.
  exists (sql_delete i d), (item_of_row <$> rows d),
    (item_of_row <$> rows (sql_delete i d)).
  split; [done|]. split; [|split; [|split]].
  - intros x. unfold sql_delete. simpl. rewrite list_elem_of_filter.
    tauto.
  - apply GET_todos_eq.
  - apply GET_todos_eq.
  - unfold sql_delete. simpl. by rewrite item_of_row_filter.
Qed.

End Requests.

(** ** Sequences of requests *)

Section Traces.

Context {G : Type} (next_id : G → list Z → Z * G) `{!KeyRange next_id}.

Implicit Types (d : Database G) (i : Z) (p : Payload) (o : TodoItem).

Lemma run_cons rq rqs d :
  run next_id (rq :: rqs) d =
    ((serve next_id rq d).1 :: (run next_id rqs (serve next_id rq d).2).1,
     (run next_id rqs (serve next_id rq d).2).2).
Proof.
  simpl. destruct (serve next_id rq d) as [r d1]. simpl.
  by destruct (run next_id rqs d1).
Qed.

Lemma ids_app_row d d' (x : Row) :
  rows d' = rows d ++ [x] → ids d' = ids d ++ [row_id x].
Proof. unfold ids. intros ->. by rewrite fmap_app. Qed.




(** Without deletions the table grows by one row for each creation that
    answers with a Task. *)
Lemma run_no_delete_length rqs d :
  Forall (λ rq, is_delete rq = false) rqs →
  length (rows (run next_id rqs d).2) =
    (length (rows d) +
     length (filter (λ r, is_Some (response_id r)) (run next_id rqs d).1))%nat.
Proof.
  revert d. induction rqs as [|rq rqs IH]; intros d Hall.
  - simpl. lia.
  - apply Forall_cons in Hall as [Hrq Hall].
    rewrite run_cons. simpl. rewrite (IH _ Hall), filter_cons.
    destruct (serve_cases next_id rq d)
      as [[Hrows Hr]|[(p & j & t & b & _ & _ & Hj & Hrows)|(j & -> & _)]];
      [| |done].
    + rewrite Hrows, Hr. rewrite decide_False by (by intros [??]). done.
    + rewrite Hrows, Hj, length_app. rewrite decide_True by done.
      simpl. lia.
Qed.

(** C6. A listing of the empty table is the empty sequence; and after any
    sequence of requests without deletion, from the empty table, a listing
    has exactly as many records as creations have succeeded (answered with
    a Task).  Nothing is said of the order. *)
Theorem get_all_todos_counts_creations :
  (∀ g : G,
     GET_todos (empty_table g)
       = ({| status := 200; content := Todos [] |}, empty_table g)) ∧
  (∀ (g : G) rqs,
     Forall (λ rq, is_delete rq = false) rqs →
     ∃ l,
       (GET_todos (run next_id rqs (empty_table g)).2).1
         = {| status := 200; content := Todos l |} ∧
       length l =
         length (filter (λ r, is_Some (response_id r))
                   (run next_id rqs (empty_table g)).1)).
Proof.
  split.
  - intros g. by rewrite GET_todos_eq.
  - intros g rqs Hall. rewrite GET_todos_eq. eexists. split; [done|].
    by rewrite length_fmap, (run_no_delete_length _ _ Hall).
Qed.

(** C7. From the empty table, creating a Task with the payload
    [{"title": "buy milk"}] and then listing gives exactly one record, with
    the title "buy milk", [is_done] false, and as [id] the integer that
    the store generated. *)
Theorem create_then_list_round_trip (g : G) :
  ∃ i d1,
    i = (next_id g []).1 ∧
    POST_todos next_id buy_milk (empty_table g)
      = ({| status := 200;
            content := Todo {| id := Some i; title := "buy milk";
                               is_done := false |} |}, d1) ∧
    GET_todos d1
      = ({| status := 200;
            content := Todos [{| id := Some i; title := "buy milk";
                                 is_done := false |}] |}, d1).
Proof.
  pose proof (next_id_in_range g [] (Forall_nil_2 _)) as Hrange.
  rewrite POST_todos_eq. unfold sql_insert, ids. simpl.
  destruct (next_id g []) as [i g']. simpl in *. rewrite Hrange. simpl.
  eexists _, _. split; [done|]. split; [done|].
  by rewrite GET_todos_eq.
Qed.

Lemma serve_NoDup rq d :
  NoDup (ids d) → NoDup (ids (serve next_id rq d).2).
Proof.
  intros Hnd.
  destruct (serve_cases next_id rq d)
    as [[Hrows _]|[(p & j & t & b & _ & Hj & _ & Hrows)|(j & _ & _ & Hrows)]].
  - unfold ids. by rewrite Hrows.
  - rewrite (ids_app_row _ _ _ Hrows). simpl.
    apply NoDup_app. split; [done|]. split; [|apply NoDup_singleton].
    intros x Hx ->%list_elem_of_singleton. done.
  - assert (ids (serve next_id rq d).2 = ids (sql_delete j d)) as ->
      by (unfold ids; by rewrite Hrows).
    rewrite ids_sql_delete. by apply NoDup_filter.
Qed.

(** C8 (as amended). In every reachable state of the store no two
    persisted Tasks have the same [id]; and the [id] of a Task is fixed
    when its row is inserted: it is the [id] of the payload or, when the
    payload has none, the one the store generates, and it is the [id] of
    no row stored at that time. *)
Theorem reachable_ids_unique d :
  reachable next_id d →
  NoDup (ids d) ∧
  (∀ p r d',
     POST_todos next_id p d = (r, d') → status r = 200 →
     ∃ i,
       response_id r = Some i ∧
       i = default (next_id (gen_state d) (ids d)).1 (p_id p) ∧
       (i ∉ ids d) ∧
       ids d' = ids d ++ [i]).
Proof.
  intros Hreach. split.
  - induction Hreach as [g|rq d Hreach IH]; [apply NoDup_nil_2|].
    by apply serve_NoDup.
  - intros p r d' E Hok.
    destruct (POST_todos_created _ _ _ _ _ E Hok)
      as (i & t & _ & Hi & Hfresh & -> & Hrows).
    exists i. repeat split; try done.
    by rewrite (ids_app_row _ _ _ Hrows).
Qed.

End Traces.

(** ** The default store *)

Module DefaultStore.

Implicit Types (d : Database unit) (p : Payload).

Section Draws.

Context `{Randomness}.

Lemma foldr_max_ge (i : Z) (l : list Z) x :
  x ∈ i :: l → x ≤ foldr Z.max i l.
Proof.
  induction l as [|y l IH]; simpl.
  - intros ->%list_elem_of_singleton. lia.
  - rewrite !elem_of_cons. intros [->|[->|Hx]].
    + assert (i ≤ foldr Z.max i l) by (apply IH; left). lia.
    + lia.
    + assert (x ≤ foldr Z.max i l) by (apply IH; by right). lia.
Qed.

Lemma foldr_max_in (i : Z) (l : list Z) : foldr Z.max i l ∈ i :: l.
Proof.
  induction l as [|y l IH]; simpl; [left|].
  destruct (Z.max_spec y (foldr Z.max i l)) as [[_ ->]|[_ ->]].
  - apply elem_of_cons in IH as [->|IH]; [left | by do 2 right].
  - right; left.
Qed.

(** While the largest row id is not in use, the key that SQLite generates
    is 1 in an empty table and else one more than the largest key. *)
Lemma sqlite_rowid_next (g : unit) (used : list Z) :
  Forall (λ j, j < max_rowid) used →
  (sqlite_rowid g used).1 =
    match used with
    | [] => 1
    | i :: l => foldr Z.max i l + 1
    end.
Proof.
  intros Hused. destruct used as [|i l]; [done|]. cbn [sqlite_rowid fst].
  pose proof (proj1 (Forall_forall _ _) Hused _ (foldr_max_in i l)) as Hm.
  simpl in Hm. by destruct (Z.ltb_spec (foldr Z.max i l) max_rowid); [|lia].
Qed.





End Draws.

(** *** At concrete requests *)

Section Sample.

#[local] Existing Instance sample_draws.



(** C8, refuted as stated.  With the default store the [id] of a deleted
    Task is assigned again: from the empty table, a creation is answered
    with [id] 1, the Task is deleted, and the next creation is answered with
    [id] 1.  With a store that draws its keys from a sequence, an [id] is
    used again when the client sends it again. *)
Lemma id_reused_after_delete :
  (run sqlite_rowid [Create buy_milk; Delete 1; Create walk_dog]
     (empty_table tt)).1 =
    [ {| status := 200;
         content := Todo {| id := Some 1; title := "buy milk";
                            is_done := false |} |};
      deleted_successfully;
      {| status := 200;
         content := Todo {| id := Some 1; title := "walk dog";
                            is_done := false |} |} ] ∧
  response_id <$>
    (run serial_sequence [Create walk_dog_7; Delete 7; Create walk_dog_7]
       (empty_table 0)).1 = [Some 7; None; Some 7].
Proof. by vm_compute. Qed.

(** The deletion of an id that no row has, at 999999 and at [2 ^ 63], the
    first integer that is no key of the default store. *)
Lemma delete_todo_unknown_id_witness :
  DELETE_todos sqlite_rowid 999999 one_task = (item_not_found, one_task) ∧
  DELETE_todos sqlite_rowid (2 ^ 63) one_task
    = (internal_server_error, one_task).
Proof.
  assert (H1 : 999999 ∉ ids one_task).
  { intros Hin. apply list_elem_of_singleton in Hin. discriminate Hin. }
  assert (H2 : 2 ^ 63 ∉ ids one_task).
  { intros Hin. apply list_elem_of_singleton in Hin. discriminate Hin. }
  destruct (delete_todo_unknown_id sqlite_rowid one_task 999999 H1)
    as (Hd1 & _ & Hin1 & _).
  destruct (delete_todo_unknown_id sqlite_rowid one_task (2 ^ 63) H2)
    as (Hd2 & _ & _ & Hout2).
  split; apply injective_projections; simpl;
    [exact (Hin1 eq_refl) | exact Hd1 | exact (Hout2 eq_refl) | exact Hd2].
Defined.


Lemma add_todo_is_done_defaults_witness :
  ∃ i t,
    {| status := 200;
       content := Todo {| id := Some 1; title := "buy milk";
                          is_done := false |} |}
      = {| status := 200;
           content := Todo {| id := Some i; title := t;
                              is_done := false |} |} ∧
    rows one_task = rows (empty_table tt) ++ [mkRow i t false].
Proof.
  exact (add_todo_is_done_defaults sqlite_rowid (empty_table tt) buy_milk
           _ one_task eq_refl eq_refl eq_refl).
Defined.

(** The creation request [{"is_done": true}], without title. *)
Lemma add_todo_missing_title_witness :
  (POST_todos sqlite_rowid no_title one_task).1 = internal_server_error ∧
  rows (POST_todos sqlite_rowid no_title one_task).2 = rows one_task ∧
  (GET_todos (POST_todos sqlite_rowid no_title one_task).2).1
    = (GET_todos one_task).1.
Proof.
  exact (add_todo_missing_title sqlite_rowid one_task no_title eq_refl).
Defined.

Lemma get_all_todos_counts_creations_witness :
  ∃ l,
    (GET_todos
       (run sqlite_rowid
          [Create buy_milk; List_todos; Create no_title; Create walk_dog]
          (empty_table tt)).2).1
      = {| status := 200; content := Todos l |} ∧
    length l = 2%nat.
Proof.
  destruct (proj2 (get_all_todos_counts_creations sqlite_rowid) tt
              [Create buy_milk; List_todos; Create no_title; Create walk_dog]
              ltac:(repeat constructor)) as (l & Hl & Hlen).
  exists l. split; [exact Hl|]. etrans; [exact Hlen|]. by vm_compute.
Defined.

(** The table of two Tasks is reached by two creations; its ids are
    different, and a third creation is answered with an id, generated by
    the store, that neither of them has. *)
Lemma reachable_ids_unique_witness :
  reachable sqlite_rowid two_tasks ∧
  NoDup (ids two_tasks) ∧
  ∃ i,
    response_id
      {| status := 200;
         content := Todo {| id := Some 3; title := "walk dog";
                            is_done := false |} |} = Some i ∧
    i = default (sqlite_rowid (gen_state two_tasks) (ids two_tasks)).1
          (p_id walk_dog) ∧
    (i ∉ ids two_tasks) ∧
    ids {| rows := rows two_tasks ++ [mkRow 3 "walk dog" false];
           gen_state := tt |} = ids two_tasks ++ [i].
Proof.
  assert (H : reachable sqlite_rowid two_tasks).
  { exact (reachable_serve sqlite_rowid
             (Create {| p_id := None; p_title := Some "walk dog";
                        p_is_done := Some true |}) _
             (reachable_serve sqlite_rowid (Create buy_milk) _
                (reachable_startup sqlite_rowid tt))). }
  split; [exact H|].
  destruct (reachable_ids_unique sqlite_rowid two_tasks H) as [Hnd Hins].
  split; [exact Hnd|].
  exact (Hins walk_dog _ _ eq_refl eq_refl).
Defined.

Lemma delete_todo_frame_witness :
  1 ∈ ids two_tasks ∧
  ∃ d' l l',
    DELETE_todos sqlite_rowid 1 two_tasks = (deleted_successfully, d') ∧
    (∀ x, x ∈ rows d' ↔ x ∈ rows two_tasks ∧ row_id x ≠ 1) ∧
    GET_todos two_tasks = ({| status := 200; content := Todos l |}, two_tasks) ∧
    GET_todos d' = ({| status := 200; content := Todos l' |}, d') ∧
    l' ≡ₚ filter (λ o, id o ≠ Some 1) l.
Proof.
  assert (H : 1 ∈ ids two_tasks) by apply list_elem_of_here.
  split; [exact H|].
  exact (delete_todo_frame sqlite_rowid two_tasks 1 H).
Defined.

End Sample.

End DefaultStore.


(** * Further properties of the code *)

(** ** The connection string, continued *)

Module ConfigMore.
Import Config.

Lemma rewritten_not_legacy (rest : string) :
  startswith ("postgresql://" +:+ rest) "postgres://" = false.
Proof. reflexivity. Qed.

Lemma DATABASE_URL_cases (env : gmap string string) :
  let url := default default_url (env !! "DATABASE_URL") in
  (startswith url "postgres://" = true ∧
   DATABASE_URL env = "postgresql://" +:+ str_drop 11 url) ∨
  (startswith url "postgres://" = false ∧ DATABASE_URL env = url).
Proof.
  unfold DATABASE_URL. cbv zeta.
  destruct (startswith _ "postgres://") eqn:E; [left | by right].
  split; [done|]. unfold startswith in E.
  by rewrite ConfigFacts.replace_first_unfold, E.
Qed.

(** X1. Whatever the environment holds, the connection string that the
    engine is created with does not begin with [postgres://]. *)
Theorem DATABASE_URL_never_legacy (env : gmap string string) :
  startswith (DATABASE_URL env) "postgres://" = false.
Proof.
  destruct (DATABASE_URL_cases env) as [[_ ->]|[E ->]];
    [apply rewritten_not_legacy | exact E].
Qed.

(** X2. The normalisation is idempotent: an environment whose variable is
    set to a connection string that was computed yields this string again. *)
Theorem DATABASE_URL_idempotent (env : gmap string string) :
  DATABASE_URL (<["DATABASE_URL" := DATABASE_URL env]> env)
    = DATABASE_URL env.
Proof.
  assert (Hno : startswith (DATABASE_URL env) "postgres://" = false).
  { destruct (DATABASE_URL_cases env) as [[_ ->]|[E ->]];
      [apply rewritten_not_legacy | exact E]. }
  destruct (DATABASE_URL_cases (<["DATABASE_URL" := DATABASE_URL env]> env))
    as [[E _]|[_ ->]]; rewrite lookup_insert_eq in *; simpl in *.
  - unfold default, Datatypes.id in E. cbn [from_option] in E. congruence.
  - done.
Qed.

End ConfigMore.

(** ** One request, continued *)

Section MoreRequests.

Context {G : Type} (next_id : G → list Z → Z * G) `{!KeyRange next_id}.

Implicit Types (d : Database G) (i : Z) (p : Payload) (o : TodoItem).

(** X3. Listing reads: for every store state it answers 200 with one Task
    for each row of the table, carrying the row's [id], [title] and
    [is_done], so that no listed Task has a null [id]; and the store is left
    as it was. *)
Theorem get_all_todos_reads d :
  ∃ l,
    GET_todos d = ({| status := 200; content := Todos l |}, d) ∧
    l ≡ₚ item_of_row <$> rows d ∧
    Forall (λ o, ∃ x, x ∈ rows d ∧ id o = Some (row_id x)) l.
Proof.
  exists (item_of_row <$> rows d). split; [apply GET_todos_eq|].
  split; [done|]. apply Forall_fmap, Forall_forall. intros x Hx.
  by exists x.
Qed.

(** X4. A creation whose payload carries an [id] that a stored row already
    has is answered with 500 (the violation of the primary key is not
    handled), and the store is left as it was. *)
Theorem add_todo_duplicate_id d p t j :
  p_title p = Some t → p_id p = Some j → j ∈ ids d →
  POST_todos next_id p d =
    ({| status := 500; content := InternalServerError |}, d).
Proof.
  intros Ht Hid Hin. rewrite POST_todos_eq, sql_insert_eq. cbv zeta.
  rewrite Ht, Hid. cbn [fst snd].
  rewrite bool_decide_eq_false_2 by (by intros ?).
  rewrite andb_false_r. by destruct d.
Qed.

(** X5. Only a deletion removes: a listing or a creation, whatever its
    outcome, keeps every row of the table. *)
Theorem serve_keeps_rows rq d x :
  is_delete rq = false → x ∈ rows d → x ∈ rows (serve next_id rq d).2.
Proof.
  intros Hrq Hx.
  destruct (serve_cases next_id rq d)
    as [[-> _]|[(p & j & t & b & _ & _ & _ & ->)|(j & -> & _)]];
    [done| |done].
  apply elem_of_app. by left.
Qed.

(** X6. No request updates a record: a row that the table has after a
    request is a row it had before, or it was written by this request, a
    creation, under an [id] that no row had. *)
Theorem serve_never_updates rq d x :
  x ∈ rows (serve next_id rq d).2 →
  x ∈ rows d ∨
  ((∃ p, rq = Create p) ∧ (row_id x ∉ ids d) ∧
   response_id (serve next_id rq d).1 = Some (row_id x)).
Proof.
  destruct (serve_cases next_id rq d)
    as [[-> _]|[(p & j & t & b & -> & Hj & Hr & ->)|(j & _ & _ & ->)]].
  - by left.
  - rewrite elem_of_app, list_elem_of_singleton. intros [?| ->]; [by left|].
    right. simpl. split; [by exists p | done].
  - intros [_ Hx]%list_elem_of_filter. by left.
Qed.

(** X7. A request that is not answered with 200 changes no row, and a
    listing after it is the listing before it. *)
Theorem serve_failure_keeps_rows rq d :
  status (serve next_id rq d).1 ≠ 200 →
  rows (serve next_id rq d).2 = rows d ∧
  (GET_todos (serve next_id rq d).2).1 = (GET_todos d).1.
Proof.
  intros Hst.
  assert (Hrows : rows (serve next_id rq d).2 = rows d).
  { destruct rq as [|p|i]; simpl in *.
    - by rewrite GET_todos_eq.
    - by apply POST_todos_failed.
    - rewrite DELETE_todos_eq in *. case_decide; [done|].
      by destruct (in_range i). }
  split; [done|]. by rewrite !GET_todos_eq, Hrows.
Qed.

(** X8. Creation and listing, in any store state: after a creation
    answered with a Task, a listing is the listing before together with this
    Task, up to the order; the Task has the [title] of the payload and its
    [is_done] when it has one; and no Task listed before had its [id]. *)
Theorem add_todo_then_list d p o d1 :
  POST_todos next_id p d = ({| status := 200; content := Todo o |}, d1) →
  ∃ l l1,
    GET_todos d = ({| status := 200; content := Todos l |}, d) ∧
    GET_todos d1 = ({| status := 200; content := Todos l1 |}, d1) ∧
    l1 ≡ₚ o :: l ∧
    p_title p = Some (title o) ∧
    (∀ b, p_is_done p = Some b → is_done o = b) ∧
    Forall (λ o', id o' ≠ id o) l.
Proof.
  intros E.
  destruct (POST_todos_created _ _ _ _ _ E eq_refl)
    as (i & t & Ht & _ & Hfresh & [= ->] & Hrows).
  exists (item_of_row <$> rows d), (item_of_row <$> rows d1).
  rewrite !GET_todos_eq, Hrows, fmap_app. simpl.
  repeat split; try done.
  - by rewrite Permutation_app_comm.
  - by intros b ->.
  - apply Forall_fmap, Forall_forall. intros x Hx [= Heq].
    apply Hfresh, list_elem_of_fmap. by exists x.
Qed.

Lemma filter_other_rows i (l : list Row) :
  i ∉ row_id <$> l → filter (λ x, row_id x ≠ i) l = l.
Proof.
  induction l as [|x l IH]; [done|]. rewrite fmap_cons, not_elem_of_cons.
  intros [Hne Hnot]. rewrite filter_cons, decide_True by done.
  by rewrite IH.
Qed.

(** X9. Deletion undoes creation: after a creation answered with a Task,
    deleting the [id] of this Task gives back the rows the table had
    before the creation, and the listing of before. *)
Theorem add_todo_then_delete d p o d1 :
  POST_todos next_id p d = ({| status := 200; content := Todo o |}, d1) →
  ∃ i d2,
    id o = Some i ∧
    DELETE_todos next_id i d1 = (deleted_successfully, d2) ∧
    rows d2 = rows d ∧
    (GET_todos d2).1 = (GET_todos d).1.
Proof.
  intros E.
  destruct (POST_todos_created _ _ _ _ _ E eq_refl)
    as (i & t & _ & _ & Hfresh & [= ->] & Hrows).
  assert (Hin : i ∈ ids d1).
  { unfold ids. rewrite Hrows, fmap_app. apply elem_of_app. right.
    by apply list_elem_of_singleton. }
  assert (Hback : rows (sql_delete i d1) = rows d).
  { unfold sql_delete. simpl. rewrite Hrows, filter_app, filter_cons.
    simpl. rewrite decide_False by (by intros ?).
    rewrite filter_nil, app_nil_r. by apply filter_other_rows. }
  exists i, (sql_delete i d1). split; [done|].
  rewrite DELETE_todos_eq, decide_True by done.
  split; [done|]. split; [done|]. by rewrite !GET_todos_eq, Hback.
Qed.

End MoreRequests.

(** ** Deletions *)

Section MoreDeletions.

Context {G : Type} (next_id : G → list Z → Z * G) `{!KeyRange next_id}.

Implicit Types (d : Database G) (i j : Z).

Lemma DELETE_todos_db i d : (DELETE_todos next_id i d).2 = sql_delete i d.
Proof.
  rewrite DELETE_todos_eq. case_decide as Hin; [done|].
  unfold sql_delete. rewrite filter_other_rows by done.
  destruct (in_range i); by destruct d.
Qed.

Lemma elem_of_ids_sql_delete i j d :
  i ∈ ids (sql_delete j d) ↔ i ∈ ids d ∧ i ≠ j.
Proof. rewrite ids_sql_delete, list_elem_of_filter. tauto. Qed.

Lemma sql_delete_comm i j d :
  sql_delete i (sql_delete j d) = sql_delete j (sql_delete i d).
Proof.
  unfold sql_delete. simpl. f_equal.
  induction (rows d) as [|x l IH]; [done|].
  rewrite !filter_cons.
  destruct (decide (row_id x ≠ j)), (decide (row_id x ≠ i));
    rewrite ?filter_cons, ?decide_True, ?decide_False by done;
    by rewrite IH.
Qed.

(** X10. Deletions of two different ids commute: in either order they
    leave the same store, and each is answered as it is when it comes
    first. *)
Theorem delete_todo_commute d i j :
  i ≠ j →
  (DELETE_todos next_id i (DELETE_todos next_id j d).2).2
    = (DELETE_todos next_id j (DELETE_todos next_id i d).2).2 ∧
  (DELETE_todos next_id i (DELETE_todos next_id j d).2).1
    = (DELETE_todos next_id i d).1 ∧
  (DELETE_todos next_id j (DELETE_todos next_id i d).2).1
    = (DELETE_todos next_id j d).1.
Proof.
  intros Hne. rewrite !DELETE_todos_db. split; [apply sql_delete_comm|].
  rewrite !DELETE_todos_eq. split.
  - destruct (decide (i ∈ ids d)) as [Hin|Hout].
    + rewrite decide_True; [done|]. by apply elem_of_ids_sql_delete.
    + rewrite decide_False; [by destruct (in_range i)|].
      by intros [? _]%elem_of_ids_sql_delete.
  - destruct (decide (j ∈ ids d)) as [Hin|Hout].
    + rewrite decide_True; [done|]. by apply elem_of_ids_sql_delete.
    + rewrite decide_False; [by destruct (in_range j)|].
      by intros [? _]%elem_of_ids_sql_delete.
Qed.

(** X11. Deletion is idempotent: after a deletion of an [id], whatever its
    answer, a second deletion of this [id] changes nothing and is not
    answered with the success message; it is answered with NotFound when
    the [id] is in the range of the keys of the store. *)
Theorem delete_todo_idempotent d i :
  (DELETE_todos next_id i (DELETE_todos next_id i d).2).2
    = (DELETE_todos next_id i d).2 ∧
  (DELETE_todos next_id i (DELETE_todos next_id i d).2).1
    ≠ deleted_successfully ∧
  (in_range i = true →
   DELETE_todos next_id i (DELETE_todos next_id i d).2
     = (item_not_found, (DELETE_todos next_id i d).2)).
Proof.
  assert (Hgone : i ∉ ids (DELETE_todos next_id i d).2).
  { rewrite DELETE_todos_db. by intros [_ ?]%elem_of_ids_sql_delete. }
  rewrite (DELETE_todos_eq next_id i (DELETE_todos next_id i d).2).
  rewrite decide_False by done. destruct (in_range i); done.
Qed.

(** X12. A deletion succeeds for exactly the ids that a listing shows.  For
    an [id] in the range of the keys of the store it is answered with
    NotFound exactly when the listing does not show the [id]; for an [id]
    outside the range, which no listing shows, it is answered with 500. *)
Theorem delete_todo_ok_iff_listed d i :
  ∃ l,
    (GET_todos d).1 = {| status := 200; content := Todos l |} ∧
    ((DELETE_todos next_id i d).1 = deleted_successfully
       ↔ Some i ∈ id <$> l) ∧
    (in_range i = true →
     ((DELETE_todos next_id i d).1 = item_not_found ↔ Some i ∉ id <$> l)) ∧
    (in_range i = false → Some i ∉ id <$> l →
     (DELETE_todos next_id i d).1 = internal_server_error).
Proof.
  exists (item_of_row <$> rows d). rewrite GET_todos_eq. split; [done|].
  assert (Hiff : Some i ∈ id <$> (item_of_row <$> rows d) ↔ i ∈ ids d).
  { rewrite <- list_fmap_compose. unfold ids.
    rewrite !list_elem_of_fmap. split.
    - intros (x & [= ->] & Hx). by exists x.
    - intros (x & -> & Hx). by exists x. }
  rewrite Hiff, DELETE_todos_eq.
  case_decide; destruct (in_range i); simpl;
    repeat split; try done; intros; by exfalso.
Qed.

Lemma length_filter_NoDup i (l : list Row) :
  NoDup (row_id <$> l) → i ∈ row_id <$> l →
  (length (filter (λ x, row_id x ≠ i) l) + 1 = length l)%nat.
Proof.
  induction l as [|x l IH]; [by intros _ ?%elem_of_nil|].
  rewrite fmap_cons, NoDup_cons, elem_of_cons, filter_cons.
  intros [Hx Hnd] Hin. destruct (decide (row_id x ≠ i)) as [Hne|Heq].
  - destruct Hin as [->|Hin]; [done|]. simpl. by rewrite <- (IH Hnd Hin).
  - apply dec_stable in Heq. subst i.
    rewrite filter_other_rows by done. simpl. lia.
Qed.

Lemma reachable_NoDup d : reachable next_id d → NoDup (ids d).
Proof.
  induction 1 as [g|rq d _ IH]; [apply NoDup_nil_2 | by apply serve_NoDup].
Qed.

(** X13. In a reachable state of the store a deletion that succeeds
    removes exactly one record. *)
Theorem delete_todo_removes_one d i :
  reachable next_id d → i ∈ ids d →
  (length (rows (DELETE_todos next_id i d).2) + 1 = length (rows d))%nat.
Proof.
  intros Hreach Hin. rewrite DELETE_todos_db. unfold sql_delete. simpl.
  apply length_filter_NoDup; [by apply reachable_NoDup | done].
Qed.

(** One request, counted: rows after, plus one if it was a deletion that
    succeeded, are the rows before, plus one if it was a creation that
    succeeded. *)
Lemma serve_accounting rq d :
  NoDup (ids d) →
  (length (rows (serve next_id rq d).2)
   + (if decide ((serve next_id rq d).1 = deleted_successfully)
      then 1 else 0)
   = length (rows d)
     + (if decide (is_Some (response_id (serve next_id rq d).1))
        then 1 else 0))%nat.
Proof.
  intros Hnd.
  assert (Hsome : ∀ o : option Z,
            (if decide (is_Some o) then 1 else 0)%nat
            = (if o is Some _ then 1 else 0)%nat).
  { intros [k|]; [by rewrite decide_True | rewrite decide_False; [done|]].
    by intros [??]. }
  rewrite Hsome. destruct rq as [|p|i]; simpl.
  - rewrite GET_todos_eq. done.
  - destruct (decide (status (POST_todos next_id p d).1 = 200)) as [Hok|Hno].
    + destruct (POST_todos next_id p d) as [r d1] eqn:E.
      destruct (POST_todos_created _ _ _ _ _ E Hok)
        as (j & t & _ & _ & _ & -> & Hrows).
      simpl. rewrite Hrows, length_app. simpl. lia.
    + destruct (POST_todos_failed next_id p d Hno) as [-> ->]. done.
  - rewrite DELETE_todos_eq. case_decide as Hin; simpl.
    + pose proof (length_filter_NoDup i (rows d) Hnd Hin). lia.
    + by destruct (in_range i).
Qed.

Lemma run_accounting_from rqs d :
  NoDup (ids d) →
  (length (rows (run next_id rqs d).2)
   + length (filter (λ r, r = deleted_successfully) (run next_id rqs d).1)
   = length (rows d)
     + length (filter (λ r, is_Some (response_id r))
                 (run next_id rqs d).1))%nat.
Proof.
  revert d. induction rqs as [|rq rqs IH]; intros d Hnd; [done|].
  rewrite run_cons. simpl. rewrite !filter_cons.
  pose proof (serve_accounting rq d Hnd) as Hstep.
  pose proof (IH _ (serve_NoDup next_id rq d Hnd)) as Hrest.
  destruct (decide ((serve next_id rq d).1 = deleted_successfully)),
    (decide (is_Some (response_id (serve next_id rq d).1)));
    simpl; lia.
Qed.

(** X14. From the empty table, after any sequence of requests, a listing
    has as many records as creations were answered with a Task, less the
    deletions that were answered with the success message. *)
Theorem run_accounting (g : G) rqs :
  ∃ l,
    (GET_todos (run next_id rqs (empty_table g)).2).1
      = {| status := 200; content := Todos l |} ∧
    (length l
     + length (filter (λ r, r = deleted_successfully)
                 (run next_id rqs (empty_table g)).1)
     = length (filter (λ r, is_Some (response_id r))
                 (run next_id rqs (empty_table g)).1))%nat.
Proof.
  rewrite GET_todos_eq. eexists. split; [done|]. rewrite length_fmap.
  by rewrite (run_accounting_from rqs (empty_table g) (NoDup_nil_2)).
Qed.

End MoreDeletions.

(** ** The default store, continued *)

Module DefaultStoreMore.

Implicit Types (d : Database unit) (p : Payload).

Section Draws.

Context `{Randomness}.





(** X16. With the default store, as long as the largest row id,
    [2 ^ 63 - 1], is not in use, the [id] that a creation without [id] is
    answered with is greater than the [id] of every record in the store. *)
Theorem sqlite_id_above_all d p o d1 :
  p_id p = None →
  Forall (λ j, j < max_rowid) (ids d) →
  POST_todos sqlite_rowid p d = ({| status := 200; content := Todo o |}, d1) →
  ∃ i, id o = Some i ∧ Forall (λ j, j < i) (ids d).
Proof.
  intros Hid Hused E.
  destruct (POST_todos_created _ _ _ _ _ E eq_refl)
    as (i & t & _ & Hi & _ & [= ->] & _).
  exists i. split; [done|]. rewrite Hid in Hi.
  change (i = (sqlite_rowid (gen_state d) (ids d)).1) in Hi.
  rewrite DefaultStore.sqlite_rowid_next in Hi by done. subst i.
  apply Forall_forall. intros j Hj.
  destruct (ids d) as [|k l]; [by apply elem_of_nil in Hj|].
  apply DefaultStore.foldr_max_ge in Hj. lia.
Qed.

End Draws.

Section Sample.

#[local] Existing Instance sample_draws.


Lemma sqlite_id_above_all_witness :
  ∃ i, Some 3 = Some i ∧ Forall (λ j, j < i) (ids two_tasks).
Proof.
  apply (sqlite_id_above_all two_tasks buy_milk
           {| id := Some 3; title := "buy milk"; is_done := false |}
           {| rows := rows two_tasks ++ [mkRow 3 "buy milk" false];
              gen_state := tt |} eq_refl); [|reflexivity].
  repeat constructor.
Defined.

Lemma delete_todo_idempotent_witness :
  DELETE_todos sqlite_rowid 1 (DELETE_todos sqlite_rowid 1 one_task).2
    = (item_not_found, (DELETE_todos sqlite_rowid 1 one_task).2).
Proof.
  exact (proj2 (proj2 (delete_todo_idempotent sqlite_rowid one_task 1))
           eq_refl).
Defined.

Lemma delete_todo_ok_iff_listed_witness :
  (DELETE_todos sqlite_rowid 2 one_task).1 = item_not_found ∧
  (DELETE_todos sqlite_rowid (2 ^ 63) one_task).1 = internal_server_error.
Proof.
  destruct (delete_todo_ok_iff_listed sqlite_rowid one_task 2)
    as (l & Hl & _ & Hin & _).
  destruct (delete_todo_ok_iff_listed sqlite_rowid one_task (2 ^ 63))
    as (l' & Hl' & _ & _ & Hout).
  injection Hl as <-. injection Hl' as <-. split.
  - apply (Hin eq_refl). intros Hc. apply list_elem_of_singleton in Hc.
    discriminate Hc.
  - apply (Hout eq_refl). intros Hc. apply list_elem_of_singleton in Hc.
    discriminate Hc.
Defined.

Lemma add_todo_duplicate_id_witness :
  POST_todos sqlite_rowid
    {| p_id := Some 1; p_title := Some "again"; p_is_done := None |} one_task
    = ({| status := 500; content := InternalServerError |}, one_task).
Proof.
  apply (add_todo_duplicate_id sqlite_rowid one_task _ "again" 1);
    [reflexivity | reflexivity | apply list_elem_of_here].
Defined.

Lemma serve_keeps_rows_witness :
  mkRow 1 "buy milk" false ∈ rows (serve sqlite_rowid (Create walk_dog) one_task).2.
Proof.
  apply serve_keeps_rows; [reflexivity | apply list_elem_of_here].
Defined.

Lemma serve_never_updates_witness :
  mkRow 2 "walk dog" false ∈ rows one_task ∨
  ((∃ p, Create walk_dog = Create p) ∧
   (row_id (mkRow 2 "walk dog" false) ∉ ids one_task) ∧
   response_id (serve sqlite_rowid (Create walk_dog) one_task).1
     = Some (row_id (mkRow 2 "walk dog" false))).
Proof.
  apply (serve_never_updates sqlite_rowid (Create walk_dog) one_task).
  apply list_elem_of_further, list_elem_of_here.
Defined.

Lemma serve_failure_keeps_rows_witness :
  rows (serve sqlite_rowid (Delete 999999) one_task).2 = rows one_task ∧
  (GET_todos (serve sqlite_rowid (Delete 999999) one_task).2).1
    = (GET_todos one_task).1.
Proof.
  apply serve_failure_keeps_rows. intros H. discriminate H.
Defined.

Lemma add_todo_then_list_witness :
  ∃ l l1,
    GET_todos one_task = ({| status := 200; content := Todos l |}, one_task) ∧
    GET_todos two_tasks = ({| status := 200; content := Todos l1 |}, two_tasks) ∧
    l1 ≡ₚ {| id := Some 2; title := "walk dog"; is_done := true |} :: l ∧
    Some "walk dog" = Some "walk dog" ∧
    (∀ b, Some true = Some b → true = b) ∧
    Forall (λ o', id o' ≠ Some 2) l.
Proof.
  exact (add_todo_then_list sqlite_rowid one_task
           {| p_id := None; p_title := Some "walk dog";
              p_is_done := Some true |}
           {| id := Some 2; title := "walk dog"; is_done := true |}
           two_tasks eq_refl).
Defined.

Lemma add_todo_then_delete_witness :
  ∃ i d2,
    Some 2 = Some i ∧
    DELETE_todos sqlite_rowid i two_tasks = (deleted_successfully, d2) ∧
    rows d2 = rows one_task ∧
    (GET_todos d2).1 = (GET_todos one_task).1.
Proof.
  exact (add_todo_then_delete sqlite_rowid one_task
           {| p_id := None; p_title := Some "walk dog";
              p_is_done := Some true |}
           {| id := Some 2; title := "walk dog"; is_done := true |}
           two_tasks eq_refl).
Defined.

Lemma delete_todo_commute_witness :
  (DELETE_todos sqlite_rowid 1 (DELETE_todos sqlite_rowid 2 two_tasks).2).2
    = (DELETE_todos sqlite_rowid 2 (DELETE_todos sqlite_rowid 1 two_tasks).2).2 ∧
  (DELETE_todos sqlite_rowid 1 (DELETE_todos sqlite_rowid 2 two_tasks).2).1
    = (DELETE_todos sqlite_rowid 1 two_tasks).1 ∧
  (DELETE_todos sqlite_rowid 2 (DELETE_todos sqlite_rowid 1 two_tasks).2).1
    = (DELETE_todos sqlite_rowid 2 two_tasks).1.
Proof.
  apply delete_todo_commute. intros H. discriminate H.
Defined.

Lemma delete_todo_removes_one_witness :
  (length (rows (DELETE_todos sqlite_rowid 1 one_task).2) + 1
   = length (rows one_task))%nat.
Proof.
  apply delete_todo_removes_one; [|apply list_elem_of_here].
  exact (reachable_serve sqlite_rowid (Create buy_milk) _
           (reachable_startup sqlite_rowid tt)).
Defined.

End Sample.

End DefaultStoreMore.
